(** * JobCopilot: the applications page, the job card and the pipeline core

    A shallow embedding of the TypeScript front end
    (frontend/src/types/index.ts, pages/Applications.tsx,
    components/ApplicationCard.tsx, components/JobCard.tsx) and of the
    back-end core the specification describes, with the properties proved
    about them. *)

From Stdlib Require Import ZArith QArith Qround Qminmax Lia.
From stdpp Require Import base option list strings pretty gmap.

Local Open Scope string_scope.
Local Open Scope Z_scope.
Local Open Scope list_scope.

(** ** Data model (frontend/src/types/index.ts)

    A TypeScript [string] is a [string]; a union of string literals is the
    string the value is at run time (the casts of the source check nothing);
    [T | null] and an optional field are [option T]; a [Record<string,string>]
    is a finite map.  Salaries and scores are integral [number]s. *)

Module SalaryRange.
Record t := mk { min : option Z; max : option Z }.
End SalaryRange.

Module Job.
Record t := mk {
  job_id : string;
  title : string;
  company : string;
  location : string;
  remote_status : string;
  salary_range : SalaryRange.t;
  job_type : string;
  posted_date : option string;
  description : string;
  requirements : list string;
  responsibilities : list string;
  application_url : string;
  source_url : string;
  scraped_at : string;
  status : string
}.
End Job.

Module TimelineEntry.
Record t := mk { status : string; date : string; note : string }.
End TimelineEntry.

Module Application.
Record t := mk {
  app_id : string;
  job_id : string;
  user_id : string;
  status : string;
  match_score : Z;
  tailored_resume : string;
  cover_letter : string;
  form_answers : gmap string string;
  submitted_at : option string;
  timeline : list TimelineEntry.t;
  job : option Job.t
}.
End Application.

(** The six statuses of [Application['status']]. *)
Definition preparing : string := "preparing".
Definition ready : string := "ready".
Definition submitted : string := "submitted".
Definition interview : string := "interview".
Definition offer : string := "offer".
Definition rejected : string := "rejected".

(** JavaScript truthiness of a string: every string but the empty one. *)
Definition truthy (s : string) : bool :=
  match s with
  | EmptyString => false
  | String _ _ => true
  end.

(** ** pages/Applications.tsx *)

(** [note || `Status changed to ${status}`]: an optional parameter that is
    absent, or present and empty, is falsy. *)
Definition note_or_default (note : option string) (status : string) : string :=
  match note with
  | Some n => if truthy n then n else "Status changed to " +:+ status
  | None => "Status changed to " +:+ status
  end.

(** The object the [map] callback of [handleUpdateStatus] builds for the
    application it targets; [now] is what [new Date().toISOString()] returns
    there. *)
Definition updateStatusOf (now status : string) (note : option string)
    (app : Application.t) : Application.t :=
  {| Application.app_id := Application.app_id app;
     Application.job_id := Application.job_id app;
     Application.user_id := Application.user_id app;
     Application.status := status;
     Application.match_score := Application.match_score app;
     Application.tailored_resume := Application.tailored_resume app;
     Application.cover_letter := Application.cover_letter app;
     Application.form_answers := Application.form_answers app;
     Application.submitted_at := Application.submitted_at app;
     Application.timeline :=
       Application.timeline app ++
       [ {| TimelineEntry.status := status;
            TimelineEntry.date := now;
            TimelineEntry.note := note_or_default note status |} ];
     Application.job := Application.job app |}.

(** The object the [map] callback of [handleAddNote] builds. *)
Definition addNoteTo (now note : string) (app : Application.t) : Application.t :=
  {| Application.app_id := Application.app_id app;
     Application.job_id := Application.job_id app;
     Application.user_id := Application.user_id app;
     Application.status := Application.status app;
     Application.match_score := Application.match_score app;
     Application.tailored_resume := Application.tailored_resume app;
     Application.cover_letter := Application.cover_letter app;
     Application.form_answers := Application.form_answers app;
     Application.submitted_at := Application.submitted_at app;
     Application.timeline :=
       Application.timeline app ++
       [ {| TimelineEntry.status := Application.status app;
            TimelineEntry.date := now;
            TimelineEntry.note := note |} ];
     Application.job := Application.job app |}.

(** The state updater of [handleUpdateStatus]: [prev.map(...)].  The clock is
    read inside the callback, once for each element that matches; [clock i]
    is the reading taken when the callback runs on index [i]. *)
Definition handleUpdateStatus (clock : nat → string) (appId status : string)
    (note : option string) (prev : list Application.t) : list Application.t :=
  imap (λ i app,
          if decide (Application.app_id app = appId)
          then updateStatusOf (clock i) status note app
          else app) prev.

(** The state updater of [handleAddNote]. *)
Definition handleAddNote (clock : nat → string) (appId note : string)
    (prev : list Application.t) : list Application.t :=
  imap (λ i app,
          if decide (Application.app_id app = appId)
          then addNoteTo (clock i) note app
          else app) prev.

(** [filteredApplications]: the conditional on the truthiness of
    [statusFilter], and [Array.prototype.filter] with [===] on strings. *)
Definition filteredApplications (statusFilter : string)
    (applications : list Application.t) : list Application.t :=
  if truthy statusFilter
  then List.filter (λ app, bool_decide (Application.status app = statusFilter))
         applications
  else applications.

(** [statusCounts]: the [reduce] that counts the applications per status,
    from the empty object; a key never written reads [undefined]. *)
Definition statusCounts (applications : list Application.t) : gmap string Z :=
  foldl (λ acc app,
           <[ Application.status app :=
                default 0 (acc !! Application.status app) + 1 ]> acc)
        ∅ applications.

(** The operations a user of the page can perform on one application, and
    their effect in sequence. *)
Inductive LifecycleOp :=
  | OpUpdateStatus (now status : string) (note : option string)
  | OpAddNote (now note : string).

Definition apply_op (app : Application.t) (op : LifecycleOp) : Application.t :=
  match op with
  | OpUpdateStatus now status note => updateStatusOf now status note app
  | OpAddNote now note => addNoteTo now note app
  end.

Definition apply_ops (ops : list LifecycleOp) (app : Application.t) : Application.t :=
  foldl apply_op app ops.

(** Modelled from the spec: the allowed-edges table of the application
    lifecycle (section 4.4), which the source has no counterpart of:
    the four forward edges and the edge to [rejected] from every non-terminal
    status. *)
Definition allowed_edge (from to : string) : bool :=
  bool_decide (from = preparing ∧ to = ready)
  || bool_decide (from = ready ∧ to = submitted)
  || bool_decide (from = submitted ∧ to = interview)
  || bool_decide (from = interview ∧ to = offer)
  || (bool_decide (to = rejected)
      && bool_decide (from ∈ [preparing; ready; submitted; interview])).

(** Timestamps are the strings [toISOString] produces: fixed width, UTC, so
    that their lexicographic order is the order of the instants. *)
Definition date_le (d1 d2 : string) : Prop := String.le d1 d2.

(** Non-decreasing timestamps, in order of appearance. *)
Fixpoint chronological (tl : list TimelineEntry.t) : Prop :=
  match tl with
  | [] => True
  | e :: rest =>
      match rest with
      | [] => True
      | e' :: _ => date_le (TimelineEntry.date e) (TimelineEntry.date e')
      end ∧ chronological rest
  end.

(** ** components/JobCard.tsx *)

(** Truthiness of a [number | null] holding an integer. *)
Definition truthy_num (x : option Z) : bool :=
  match x with
  | Some n => negb (n =? 0)
  | None => false
  end.

(** [(x / 1000).toFixed(0)] for an integral [x]: the sign, then the integer
    nearest to the magnitude of the quotient, the larger one at a tie.  Below
    2^53 the double quotient lies on the same side of every half-integer as
    the exact one. *)
Definition toFixed0_thousands (x : Z) : string :=
  (if x <? 0 then "-" else "") +:+ pretty (Z.to_N ((Z.abs x + 500) / 1000)).

(** [null / 1000] is [0 / 1000]. *)
Definition to_number (x : option Z) : Z := default 0 x.

Definition formatSalary (range : SalaryRange.t) : string :=
  let min := SalaryRange.min range in
  let max := SalaryRange.max range in
  if negb (truthy_num min) && negb (truthy_num max) then "Not specified"
  else if truthy_num min && truthy_num max then
    "$" +:+ toFixed0_thousands (to_number min) +:+ "k - $"
        +:+ toFixed0_thousands (to_number max) +:+ "k"
  else if truthy_num min then
    "$" +:+ toFixed0_thousands (to_number min) +:+ "k+"
  else "Up to $" +:+ toFixed0_thousands (to_number max) +:+ "k".

Definition getScoreColor (score : Z) : string :=
  if 85 <=? score then "score-excellent"
  else if 70 <=? score then "score-good"
  else if 50 <=? score then "score-fair"
  else "score-low".

(** The guard of the salary tag of the card:
    [job.salary_range && (job.salary_range.min || job.salary_range.max)]. *)
Definition showsSalary (range : option SalaryRange.t) : bool :=
  match range with
  | Some r => truthy_num (SalaryRange.min r) || truthy_num (SalaryRange.max r)
  | None => false
  end.


(** ** components/ApplicationCard.tsx *)

(** The values of [statusOptions], the entries of the status drop-down. *)
Definition statusOptions : list string :=
  [preparing; ready; submitted; interview; offer; rejected].

(** [handleStatusChange(newStatus)]: the card calls [onUpdateStatus] with the
    identifier of its application and no note; [onUpdateStatus] is the
    [handleUpdateStatus] of the page. *)
Definition handleStatusChange (clock : nat → string)
    (application : Application.t) (newStatus : string)
    (prev : list Application.t) : list Application.t :=
  handleUpdateStatus clock (Application.app_id application) newStatus None prev.

(** The values of [statusFilters] of the page, the first one being the
    filter that shows everything. *)
Definition statusFilters : list string :=
  [""; preparing; ready; submitted; interview; offer; rejected].

(** The click on a summary card: the filter is set to the card's value, or
    cleared when it is that value already. *)
Definition toggleFilter (statusFilter value : string) : string :=
  if decide (statusFilter = value) then "" else value.

(** The number a summary card displays: [statusCounts[filter.value] || 0]. *)
Definition summaryCount (applications : list Application.t) (value : string) : Z :=
  default 0 (statusCounts applications !! value).

(** ** The mock data of pages/Applications.tsx *)

Definition mockJob (id title company location remote_status : string)
    (lo hi : Z) (posted status : string) : Job.t :=
  {| Job.job_id := id; Job.title := title; Job.company := company;
     Job.location := location; Job.remote_status := remote_status;
     Job.salary_range := SalaryRange.mk (Some lo) (Some hi);
     Job.job_type := "full-time"; Job.posted_date := Some posted;
     Job.description := ""; Job.requirements := [];
     Job.responsibilities := []; Job.application_url := "";
     Job.source_url := ""; Job.scraped_at := ""; Job.status := status |}.

Definition mock_app1 : Application.t :=
  {| Application.app_id := "app1"; Application.job_id := "1";
     Application.user_id := "user1"; Application.status := interview;
     Application.match_score := 92;
     Application.tailored_resume := "Tailored resume content...";
     Application.cover_letter := "Cover letter content...";
     Application.form_answers := ∅;
     Application.submitted_at := Some "2024-01-10T10:00:00Z";
     Application.timeline :=
       [ TimelineEntry.mk preparing "2024-01-08T10:00:00Z" "Application created";
         TimelineEntry.mk submitted "2024-01-10T10:00:00Z" "Application submitted";
         TimelineEntry.mk interview "2024-01-15T10:00:00Z"
           "Interview scheduled for Jan 20" ];
     Application.job :=
       Some (mockJob "1" "Senior Software Engineer" "TechCorp Inc"
               "San Francisco, CA" "hybrid" 150000 200000 "2024-01-05" "matched") |}.

Definition mock_app2 : Application.t :=
  {| Application.app_id := "app2"; Application.job_id := "2";
     Application.user_id := "user1"; Application.status := submitted;
     Application.match_score := 87;
     Application.tailored_resume := "Tailored resume content...";
     Application.cover_letter := "Cover letter content...";
     Application.form_answers := ∅;
     Application.submitted_at := Some "2024-01-12T10:00:00Z";
     Application.timeline :=
       [ TimelineEntry.mk preparing "2024-01-11T10:00:00Z" "Application created";
         TimelineEntry.mk submitted "2024-01-12T10:00:00Z" "Application submitted" ];
     Application.job :=
       Some (mockJob "2" "Full Stack Developer" "StartupXYZ" "Remote" "remote"
               120000 160000 "2024-01-08" "matched") |}.

Definition mock_app3 : Application.t :=
  {| Application.app_id := "app3"; Application.job_id := "3";
     Application.user_id := "user1"; Application.status := offer;
     Application.match_score := 78;
     Application.tailored_resume := "Tailored resume content...";
     Application.cover_letter := "Cover letter content...";
     Application.form_answers := ∅;
     Application.submitted_at := Some "2024-01-05T10:00:00Z";
     Application.timeline :=
       [ TimelineEntry.mk preparing "2024-01-04T10:00:00Z" "Application created";
         TimelineEntry.mk submitted "2024-01-05T10:00:00Z" "Application submitted";
         TimelineEntry.mk interview "2024-01-10T10:00:00Z" "First interview completed";
         TimelineEntry.mk interview "2024-01-14T10:00:00Z" "Final interview completed";
         TimelineEntry.mk offer "2024-01-16T10:00:00Z"
           "Received offer! $165k base + equity" ];
     Application.job :=
       Some (mockJob "3" "Backend Engineer" "BigTech Corp" "New York, NY" "hybrid"
               140000 180000 "2024-01-01" "applied") |}.

Definition mock_app4 : Application.t :=
  {| Application.app_id := "app4"; Application.job_id := "4";
     Application.user_id := "user1"; Application.status := rejected;
     Application.match_score := 65;
     Application.tailored_resume := "";
     Application.cover_letter := "";
     Application.form_answers := ∅;
     Application.submitted_at := Some "2024-01-03T10:00:00Z";
     Application.timeline :=
       [ TimelineEntry.mk submitted "2024-01-03T10:00:00Z" "Application submitted";
         TimelineEntry.mk rejected "2024-01-08T10:00:00Z" "Position filled" ];
     Application.job :=
       Some (mockJob "4" "DevOps Engineer" "CloudNine" "Austin, TX" "onsite"
               130000 170000 "2023-12-28" "applied") |}.

Definition mockApplications : list Application.t :=
  [mock_app1; mock_app2; mock_app3; mock_app4].

(** A clock that reads the same instant at every index. *)
Definition fixed_clock (now : string) : nat → string := λ _, now.

(** ** The pipeline orchestrator *)

Module Orchestrator.

(** The dynamic objects of the envelope ([output_data], [pass_data],
    [save_to_memory]): keys to opaque values. *)
Abbreviation Data := (gmap string string).

Record Envelope := mkEnvelope {
  agent : string;
  action : string;
  output_data : Data;
  next_agent : option string;
  pass_data : Data;
  save_to_memory : Data
}.

(** The shared store: [(user_id, key)] to an opaque value. *)
Abbreviation Store := (gmap (string * string) string).

Inductive Failure :=
  | Transient (reason : string)
  | Permanent (reason : string).

Inductive Error :=
  | InvalidKey (key : string)
  | UnknownCapability (name : string)
  | PipelineOverrun
  | TransientExhausted (reason : string)
  | PermanentFailure (reason : string).

Record Context := mkContext {
  ctx_user : string;
  store_snapshot : Store;
  ctx_pass_data : Data
}.

(** A capability: [process(context)], which returns an envelope or raises.
    The second argument is the number of the attempt, so that a call that
    fails transiently may succeed when it is retried. *)
Definition Capability := Context → nat → Envelope + Failure.

Abbreviation Registry := (gmap string Capability).

Record Config := mkConfig {
  ceiling : nat;
  max_retries : nat;
  valid_key : string → bool;
  cancelled : nat → bool
}.

(** The default hop ceiling. *)
Definition default_ceiling : nat := 32.

Inductive Outcome :=
  | Completed
  | Cancelled
  | Failed (e : Error).

Record RunResult := mkResult {
  outcome : Outcome;
  log : list (string * string * Data);
  final_store : Store
}.

Record RunState := mkState {
  hops : nat;
  visited : gset string;
  pending : option string;
  pending_data : Data;
  run_log : list (string * string * Data);
  store : Store
}.

(** Modelled from the spec: [SharedMemoryStore.get] (section 4.1); the
    store is not among the sources. *)
Definition get (user key : string) (s : Store) : option string :=
  s !! (user, key).

(** Modelled from the spec: [SharedMemoryStore.merge] (section 4.1): all
    the writes, or [InvalidKey] and none of them. *)
Definition merge (cfg : Config) (user : string) (writes : Data) (s : Store)
    : Store + Error :=
  match List.find (λ kv, negb (valid_key cfg kv.1)) (map_to_list writes) with
  | Some kv => inr (InvalidKey kv.1)
  | None => inl (kmap (λ k, (user, k)) writes ∪ s)
  end.

(** The entries of the store that belong to the user. *)
Definition snapshot (user : string) (s : Store) : Store :=
  filter (λ kv, kv.1.1 = user) s.

(** A capability call with its retries: a transient failure is retried
    while retries are left, a permanent one is not. *)
Fixpoint invoke (cap : Capability) (ctx : Context) (attempt retries : nat)
    : Envelope + Error :=
  match cap ctx attempt with
  | inl env => inl env
  | inr (Permanent r) => inr (PermanentFailure r)
  | inr (Transient r) =>
      match retries with
      | O => inr (TransientExhausted r)
      | S k => invoke cap ctx (S attempt) k
      end
  end.

Definition finish (o : Outcome) (st : RunState) : RunResult :=
  {| outcome := o; log := run_log st; final_store := store st |}.

(** Modelled from the spec: one iteration of the loop of step 2 of
    [Orchestrator.run] (section 4.2), with the cancellation check of
    section 5.  The hop counter counts the hops taken, this one included,
    and [PipelineOverrun] is raised when it exceeds the ceiling. *)
Definition step (cfg : Config) (reg : Registry) (user : string)
    (st : RunState) : RunState + RunResult :=
  match pending st with
  | None => inr (finish Completed st)
  | Some name =>
      if cancelled cfg (hops st) then inr (finish Cancelled st)
      else if bool_decide (ceiling cfg < S (hops st))%nat
      then inr (finish (Failed PipelineOverrun) st)
      else
        match reg !! name with
        | None => inr (finish (Failed (UnknownCapability name)) st)
        | Some cap =>
            let ctx := {| ctx_user := user;
                          store_snapshot := snapshot user (store st);
                          ctx_pass_data := pending_data st |} in
            match invoke cap ctx 0 (max_retries cfg) with
            | inr e => inr (finish (Failed e) st)
            | inl env =>
                match merge cfg user (save_to_memory env) (store st) with
                | inr e => inr (finish (Failed e) st)
                | inl store' =>
                    inl {| hops := S (hops st);
                           visited := {[ name ]} ∪ visited st;
                           pending := next_agent env;
                           pending_data := pass_data env;
                           run_log := run_log st ++
                             [(agent env, action env, output_data env)];
                           store := store' |}
                end
            end
        end
  end.

(** The loop, bounded by [fuel] iterations; [None] when they run out. *)
Fixpoint run_loop (fuel : nat) (cfg : Config) (reg : Registry)
    (user : string) (st : RunState) : option RunResult :=
  match fuel with
  | O => None
  | S fuel' =>
      match step cfg reg user st with
      | inr r => Some r
      | inl st' => run_loop fuel' cfg reg user st'
      end
  end.

Definition initial (initial_envelope : Envelope) (s : Store) : RunState :=
  {| hops := 0;
     visited := ∅;
     pending := next_agent initial_envelope;
     pending_data := pass_data initial_envelope;
     run_log := [];
     store := s |}.

(** Modelled from the spec: [Orchestrator.run] (section 4.2); the
    orchestrator is not among the sources.  One iteration more than the
    ceiling is what the loop can need. *)
Definition run (cfg : Config) (reg : Registry) (user : string) (s : Store)
    (initial_envelope : Envelope) : option RunResult :=
  run_loop (S (ceiling cfg)) cfg reg user (initial initial_envelope s).

(** A registry and a configuration with which no hop ends the run: every
    registered capability returns at once an envelope that names a
    registered capability and writes valid keys only. *)
Definition endless (cfg : Config) (reg : Registry) : Prop :=
  (∀ h, cancelled cfg h = false) ∧
  ∀ name cap ctx, reg !! name = Some cap →
    ∃ env, cap ctx O = inl env
           ∧ (∃ next, next_agent env = Some next ∧ is_Some (reg !! next))
           ∧ ∀ k v, save_to_memory env !! k = Some v → valid_key cfg k = true.

End Orchestrator.

(** ** The matching engine *)

Module Matching.

Inductive RemotePreference := remote_only | hybrid_ok | onsite_ok | any.

Inductive RemoteStatus := remote | hybrid | onsite.

(** The part of the profile the engine reads.  Sets are given by a list of
    their elements, in whatever order and with whatever repetition they are
    enumerated. *)
Record UserProfile := mkProfile {
  user_id : string;
  target_titles : list string;
  preferred_locations : list string;
  remote_preference : RemotePreference;
  salary_min : option Z;
  salary_max : option Z;
  required_keywords : list string;
  excluded_keywords : list string;
  blacklisted_companies : list string;
  extracted_keywords : option (list string)
}.

(** A job as the engine is given it.  The posting timestamp is held as the
    age of the posting, in seconds: [score] is a function of the profile and
    the job alone, and this is the form in which it can read how many days
    old the posting is (the scenarios of section 8 give it so: "posted 2 days
    ago"). *)
Record Job := mkJob {
  job_id : string;
  title : string;
  company : string;
  location : string;
  remote_status : RemoteStatus;
  job_salary_min : option Z;
  job_salary_max : option Z;
  description : string;
  requirements : list string;
  posted_age : Z;
  status : string
}.

(** What [score] returns.  The timestamp of the computation, which a cached
    MatchResult also carries, is put there by whoever caches it; [score]
    reads no clock. *)
Record MatchResult := mkMatch {
  match_user : string;
  match_job : string;
  score_value : Z;
  highlights : list string
}.

Definition lower_char (c : Ascii.ascii) : Ascii.ascii :=
  let n := Ascii.N_of_ascii c in
  if ((65 <=? n) && (n <=? 90))%N then Ascii.ascii_of_N (n + 32) else c.

Fixpoint lower (s : string) : string :=
  match s with
  | EmptyString => EmptyString
  | String c rest => String (lower_char c) (lower rest)
  end.

(** [occurs needle hay]: [needle] is a substring of [hay]. *)
Fixpoint occurs (needle hay : string) : bool :=
  String.prefix needle hay
  || match hay with
     | EmptyString => false
     | String _ rest => occurs needle rest
     end.

(** Case-insensitive substring match. *)
Definition mentions (text term : string) : bool :=
  occurs (lower term) (lower text).

(** Job title + description, the text the keywords are looked up in. *)
Definition job_text (j : Job) : string :=
  title j +:+ " " +:+ description j.

Definition blacklisted (p : UserProfile) (j : Job) : bool :=
  existsb (λ c, bool_decide (lower c = lower (company j)))
          (blacklisted_companies p).

Definition lacks_required (p : UserProfile) (j : Job) : bool :=
  match required_keywords p with
  | [] => false
  | ks => negb (existsb (mentions (job_text j)) ks)
  end.

Definition has_excluded (p : UserProfile) (j : Job) : bool :=
  existsb (mentions (job_text j)) (excluded_keywords p).

(** The hard filter that fails, if one does, in the order of the spec. *)
Definition hard_filter (p : UserProfile) (j : Job) : option string :=
  if blacklisted p j then Some "Company is blacklisted"
  else if lacks_required p j then Some "No required keyword found"
  else if has_excluded p j then Some "Excluded keyword found"
  else None.

Definition profile_terms (p : UserProfile) : list string :=
  target_titles p ++ default [] (extracted_keywords p).

(** Title/keyword affinity: the share of the profile's terms the job text
    mentions; a profile without terms is not held against the job. *)
Definition title_affinity (p : UserProfile) (j : Job) : Q :=
  match profile_terms p with
  | [] => 100
  | ts =>
      Qmin 100
        (100 * inject_Z (Z.of_nat (length (List.filter (mentions (job_text j)) ts)))
         / inject_Z (Z.of_nat (length ts)))
  end.

Definition remote_compatible (pref : RemotePreference) (rs : RemoteStatus) : bool :=
  match pref, rs with
  | any, _ => true
  | remote_only, remote => true
  | hybrid_ok, (remote | hybrid) => true
  | onsite_ok, _ => true
  | _, _ => false
  end.

Definition location_score (p : UserProfile) (j : Job) : Q :=
  if remote_compatible (remote_preference p) (remote_status j) then 100
  else if existsb (mentions (location j)) (preferred_locations p) then 100
  else 0.

(** Salary fit.  The lower bound of a range that has only an upper bound is
    taken to be absent for the profile and to be that upper bound for the
    job. *)
Definition salary_fit (p : UserProfile) (j : Job) : Q :=
  match salary_min p, salary_max p, job_salary_min j, job_salary_max j with
  | None, None, _, _ => 100
  | _, _, None, None => 100
  | pmin, _, jmin, jmax =>
      let want := default 0%Z pmin in
      let have := default (default 0%Z jmax) jmin in
      if (want <=? have)%Z then 100
      else if (want <=? 0)%Z then 0
      else Qmax 0 (100 - 500 * inject_Z (want - have) / inject_Z want)
  end.

(** The age of the posting, in days. *)
Definition age_days (j : Job) : Q :=
  inject_Z (posted_age j) / 86400.

Definition freshness (j : Job) : Q :=
  let age := age_days j in
  if Qle_bool age 7 then 100
  else if Qle_bool 60 age then 0
  else 100 * (60 - age) / 53.

Definition weighted_sum (a l s f : Q) : Q :=
  (35 # 100) * a + (25 # 100) * l + (25 # 100) * s + (15 # 100) * f.

(** Rounding to the nearest integer, then clamping to [0,100]. *)
Definition round_clamp (x : Q) : Z :=
  Z.max 0 (Z.min 100 (Qfloor (x + (1 # 2)))).

Definition highlight (sub : Q) (text : string) : list string :=
  if Qle_bool 70 sub then [text] else [].

(** Modelled from the spec: [MatchingEngine.score] (section 4.3), a function
    of the profile and the job; the engine is not among the sources. *)
Definition score (p : UserProfile) (j : Job) : MatchResult :=
  match hard_filter p j with
  | Some why =>
      {| match_user := user_id p; match_job := job_id j;
         score_value := 0; highlights := [why] |}
  | None =>
      let a := title_affinity p j in
      let l := location_score p j in
      let s := salary_fit p j in
      let f := freshness j in
      {| match_user := user_id p; match_job := job_id j;
         score_value := round_clamp (weighted_sum a l s f);
         highlights :=
           highlight a "Title and keywords match"
           ++ highlight l "Location or remote preference fits"
           ++ highlight s "Salary fits"
           ++ highlight f "Recently posted" |}
  end.

(** Two lists that enumerate the same set. *)
Definition same_elements (l1 l2 : list string) : Prop :=
  ∀ x, x ∈ l1 ↔ x ∈ l2.

(** Two profiles that are the same input: equal field by field, the sets
    compared by their elements. *)
Definition same_profile (p1 p2 : UserProfile) : Prop :=
  user_id p1 = user_id p2
  ∧ target_titles p1 = target_titles p2
  ∧ same_elements (preferred_locations p1) (preferred_locations p2)
  ∧ remote_preference p1 = remote_preference p2
  ∧ salary_min p1 = salary_min p2
  ∧ salary_max p1 = salary_max p2
  ∧ same_elements (required_keywords p1) (required_keywords p2)
  ∧ same_elements (excluded_keywords p1) (excluded_keywords p2)
  ∧ same_elements (blacklisted_companies p1) (blacklisted_companies p2)
  ∧ extracted_keywords p1 = extracted_keywords p2.

Definition day : Z := 86400.

End Matching.

(** ** Predicates the statements use *)

(** Two applications that agree on every field but [status] and
    [timeline]. *)
Definition same_frame (a b : Application.t) : Prop :=
  Application.app_id a = Application.app_id b
  ∧ Application.job_id a = Application.job_id b
  ∧ Application.user_id a = Application.user_id b
  ∧ Application.match_score a = Application.match_score b
  ∧ Application.tailored_resume a = Application.tailored_resume b
  ∧ Application.cover_letter a = Application.cover_letter b
  ∧ Application.form_answers a = Application.form_answers b
  ∧ Application.submitted_at a = Application.submitted_at b
  ∧ Application.job a = Application.job b.

(** An operation that cannot move an application out of [rejected]: a note,
    or a status update that asks for [rejected]. *)
Definition keeps_rejected (op : LifecycleOp) : Prop :=
  match op with
  | OpUpdateStatus _ status _ => status = rejected
  | OpAddNote _ _ => True
  end.

(** The reading of the clock an operation carries. *)
Definition op_time (op : LifecycleOp) : string :=
  match op with
  | OpUpdateStatus now _ _ => now
  | OpAddNote now _ => now
  end.

(** A salary bound that is falsy: [null] or [0]. *)
Definition falsy_bound (x : option Z) : Prop := x = None ∨ x = Some 0.

(** Two capabilities that hand the work to each other for ever, and the
    default configuration: 32 hops, no retry, every key valid, no
    cancellation. *)
Definition ping : Orchestrator.Capability :=
  λ _ _, inl (Orchestrator.mkEnvelope "MATCHER_AGENT" "scored" ∅
                (Some "TRACKER_AGENT") ∅ {[ "last" := "matcher" ]}).

Definition pong : Orchestrator.Capability :=
  λ _ _, inl (Orchestrator.mkEnvelope "TRACKER_AGENT" "tracked" ∅
                (Some "MATCHER_AGENT") ∅ {[ "last" := "tracker" ]}).

Definition ping_pong : gmap string Orchestrator.Capability :=
  {[ "MATCHER_AGENT" := ping; "TRACKER_AGENT" := pong ]}.

Definition default_config : Orchestrator.Config :=
  Orchestrator.mkConfig Orchestrator.default_ceiling 0 (λ _, true) (λ _, false).

Definition start_at (name : string) : Orchestrator.Envelope :=
  Orchestrator.mkEnvelope "caller" "start" ∅ (Some name) ∅ ∅.

(** The profile and the job of the scenario of section 8 of the
    specification, the job posted two days ago, and the same profile with
    its sets enumerated otherwise. *)
Definition scenario_profile : Matching.UserProfile :=
  Matching.mkProfile "user1" ["Backend Engineer"] ["Berlin"; "Remote"]
    Matching.hybrid_ok (Some 120000) None
    ["Python"; "Rust"] ["unpaid"] ["EvilCorp"; "Initech"] None.


Definition scenario_job : Matching.Job :=
  Matching.mkJob "job1" "Backend Engineer" "TechCorp Inc" "Berlin"
    Matching.remote (Some 130000) (Some 150000)
    "We build data pipelines in Python." [] (2 * Matching.day) "new".

(** ** The jobs page: [filteredJobs] *)

(** A [JobMatch]: a job extended with its score and highlights. *)
Module JobMatch.
Record t := mk { job : Job.t; match_score : Z; highlights : list string }.
End JobMatch.

(** [String.prototype.includes]: [sub] occurs in [s]. *)
Fixpoint includes (s sub : string) : bool :=
  String.prefix sub s
  || match s with
     | EmptyString => false
     | String _ rest => includes rest sub
     end.

(** The callback of [jobs.filter(...)] in the jobs page.  [toLowerCase] is
    the method of the run-time library, taken as it comes. *)
Definition keepsJob (toLowerCase : string → string)
    (searchQuery filter : string) (minScore : Z) (job : JobMatch.t) : bool :=
  if truthy searchQuery
     && (negb (includes (toLowerCase (Job.title (JobMatch.job job)))
                 (toLowerCase searchQuery))
         && negb (includes (toLowerCase (Job.company (JobMatch.job job)))
                    (toLowerCase searchQuery)))
  then false
  else if negb (bool_decide (filter = "all"))
          && negb (bool_decide (Job.remote_status (JobMatch.job job) = filter))
  then false
  else if JobMatch.match_score job <? minScore then false
  else true.

Definition filteredJobs (toLowerCase : string → string)
    (searchQuery filter : string) (minScore : Z) (jobs : list JobMatch.t)
    : list JobMatch.t :=
  List.filter (keepsJob toLowerCase searchQuery filter minScore) jobs.

(** ** components/ResumeUpload.tsx: [onDrop] *)

Module ResumeUpload.

Record File := mkFile { name : string; type : string; size : Z }.

Definition validTypes : list string :=
  [ "application/pdf";
    "application/msword";
    "application/vnd.openxmlformats-officedocument.wordprocessingml.document";
    "text/plain" ].

(** What a drop leaves behind: the error state of the component, and the
    file [onUpload] was called with, if it was called. *)
Record Dropped := mkDropped { error : option string; uploaded : option File }.

(** [onDrop(acceptedFiles)]; [onUpload file] tells whether the promise of the
    upload resolves ([true]) or rejects. *)
Definition onDrop (onUpload : File → bool) (acceptedFiles : list File) : Dropped :=
  match acceptedFiles with
  | [] => {| error := None; uploaded := None |}
  | file :: _ =>
      if negb (bool_decide (type file ∈ validTypes)) then
        {| error := Some "Please upload a PDF, Word document, or text file";
           uploaded := None |}
      else if 5 * 1024 * 1024 <? size file then
        {| error := Some "File size must be less than 5MB"; uploaded := None |}
      else if onUpload file then {| error := None; uploaded := Some file |}
      else {| error := Some "Failed to upload file. Please try again.";
              uploaded := Some file |}
  end.

End ResumeUpload.

(** The timestamps of a sequence of operations never go backwards. *)
Fixpoint ops_in_order (last_time : string) (ops : list LifecycleOp) : Prop :=
  match ops with
  | [] => True
  | op :: rest => date_le last_time (op_time op) ∧ ops_in_order (op_time op) rest
  end.

(** The timestamp of the last entry of a timeline, or the empty string, which
    is before every timestamp, for the empty timeline. *)
Definition last_time (tl : list TimelineEntry.t) : string :=
  default "" (TimelineEntry.date <$> last tl).

(** Three matches in the shape of the mock data of the jobs page. *)
Definition sample_matches : list JobMatch.t :=
  [ JobMatch.mk
      (mockJob "1" "Senior Software Engineer" "TechCorp Inc" "San Francisco, CA"
         "hybrid" 150000 200000 "2024-01-15" "matched")
      92 ["Skills match"; "Remote friendly"; "Salary in range"];
    JobMatch.mk
      (mockJob "2" "Full Stack Developer" "StartupXYZ" "Remote" "remote"
         120000 160000 "2024-01-14" "matched")
      87 ["Full remote"; "Startup culture"];
    JobMatch.mk
      (mockJob "4" "DevOps Engineer" "CloudNine" "Austin, TX" "onsite"
         130000 170000 "2023-12-28" "matched")
      65 [] ].

(** * Properties *)

(** ** The lifecycle operations on one application *)

Lemma same_frame_refl a : same_frame a a.
Proof. by repeat split. Qed.

Lemma same_frame_trans a b c : same_frame a b → same_frame b c → same_frame a c.
Proof.
  unfold same_frame. intros (?&?&?&?&?&?&?&?&?) (?&?&?&?&?&?&?&?&?).
  repeat split; congruence.
Qed.

Lemma updateStatusOf_frame now status note app :
  same_frame app (updateStatusOf now status note app).
Proof. by repeat split. Qed.

Lemma addNoteTo_frame now note app : same_frame app (addNoteTo now note app).
Proof. by repeat split. Qed.

Lemma handleUpdateStatus_lookup clock appId status note prev i :
  handleUpdateStatus clock appId status note prev !! i =
  (λ app, if decide (Application.app_id app = appId)
          then updateStatusOf (clock i) status note app else app) <$> prev !! i.
Proof. unfold handleUpdateStatus. by rewrite list_lookup_imap. Qed.

Lemma handleAddNote_lookup clock appId note prev i :
  handleAddNote clock appId note prev !! i =
  (λ app, if decide (Application.app_id app = appId)
          then addNoteTo (clock i) note app else app) <$> prev !! i.
Proof. unfold handleAddNote. by rewrite list_lookup_imap. Qed.

Lemma note_or_default_supplied n status :
  n ≠ "" → note_or_default (Some n) status = n.
Proof. by destruct n. Qed.

Lemma note_or_default_missing note status :
  note = None ∨ note = Some "" →
  note_or_default note status = "Status changed to " +:+ status.
Proof. by intros [-> | ->]. Qed.

Lemma chronological_snoc tl e :
  chronological (tl ++ [e]) ↔
  chronological tl
  ∧ ∀ e0, last tl = Some e0 → date_le (TimelineEntry.date e0) (TimelineEntry.date e).
Proof.
  induction tl as [|a tl IH].
  - simpl. split; [intros _; split; [done | by intros ?] | done].
  - destruct tl as [|b tl].
    + simpl. split.
      * intros [H _]. split; [done |]. by intros e0 [= <-].
      * intros [_ H]. split; [by apply H | done].
    + change (chronological ((a :: b :: tl) ++ [e])) with
        (date_le (TimelineEntry.date a) (TimelineEntry.date b)
         ∧ chronological ((b :: tl) ++ [e])).
      change (chronological (a :: b :: tl)) with
        (date_le (TimelineEntry.date a) (TimelineEntry.date b)
         ∧ chronological (b :: tl)).
      change (last (a :: b :: tl)) with (last (b :: tl)).
      rewrite IH. tauto.
Qed.

(** C1, the claim as stated fails: the update of the rejected mock
    application to [preparing], an edge the table does not have, is not
    refused; the application comes out with status [preparing] and a third
    timeline entry. *)
Lemma illegal_edge_not_refused :
  allowed_edge (Application.status mock_app4) preparing = false
  ∧ Application.status <$>
      handleUpdateStatus (fixed_clock "2024-02-01T09:00:00.000Z") "app4"
        preparing None mockApplications !! 3%nat = Some preparing
  ∧ handleUpdateStatus (fixed_clock "2024-02-01T09:00:00.000Z") "app4"
      preparing None mockApplications !! 3%nat ≠ Some mock_app4.
Proof.
  split; [done |]. split; [done |].
  intros H. apply (f_equal (fmap Application.status)) in H. by vm_compute in H.
Qed.

(** C1, amended: the status update validates no edge and never fails.  On an
    edge that is not in the allowed-edges table it still sets the status of
    the targeted application to the requested one and appends one timeline
    entry; every field other than the status and the timeline keeps its
    value. *)
Theorem illegal_edge_is_applied clock appId status note prev i app :
  prev !! i = Some app →
  Application.app_id app = appId →
  allowed_edge (Application.status app) status = false →
  ∃ app',
    handleUpdateStatus clock appId status note prev !! i = Some app'
    ∧ Application.status app' = status
    ∧ Application.timeline app' =
        Application.timeline app ++
        [TimelineEntry.mk status (clock i) (note_or_default note status)]
    ∧ same_frame app app'.
Proof.
  intros Hi Hid _. exists (updateStatusOf (clock i) status note app).
  rewrite handleUpdateStatus_lookup, Hi. simpl.
  rewrite decide_True by done. repeat split.
Qed.

Lemma illegal_edge_is_applied_witness :
  ∃ app',
    handleUpdateStatus (fixed_clock "2024-02-01T09:00:00.000Z") "app4"
      preparing None mockApplications !! 3%nat = Some app'
    ∧ Application.status app' = preparing
    ∧ Application.timeline app' =
        Application.timeline mock_app4 ++
        [TimelineEntry.mk preparing "2024-02-01T09:00:00.000Z"
           (note_or_default None preparing)]
    ∧ same_frame mock_app4 app'.
Proof.
  apply (illegal_edge_is_applied (fixed_clock "2024-02-01T09:00:00.000Z")
           "app4" preparing None mockApplications 3%nat mock_app4);
    reflexivity.
Defined.

(** C2, the claim as stated fails: one status update takes the rejected
    mock application back to [preparing]. *)
Lemma rejected_is_left :
  Application.status mock_app4 = rejected
  ∧ Application.status
      (apply_ops [OpUpdateStatus "2024-02-01T09:00:00.000Z" preparing None]
         mock_app4) ≠ rejected.
Proof. split; [done | by vm_compute]. Qed.

Lemma apply_ops_snoc ops op app :
  apply_ops (ops ++ [op]) app = apply_op (apply_ops ops app) op.
Proof. unfold apply_ops. by rewrite foldl_snoc. Qed.

(** C2, amended: the status update sets whatever status it is asked for, so
    [rejected] is kept only by the operations that do not ask for another
    one: after any sequence of notes and of status updates that request
    [rejected], an application that was rejected is rejected. *)
Theorem rejected_kept ops app :
  Application.status app = rejected →
  Forall keeps_rejected ops →
  Application.status (apply_ops ops app) = rejected.
Proof.
  intros Hrej Hops. revert app Hrej.
  induction Hops as [|op ops Hop _ IH]; intros app Hrej; [done |].
  unfold apply_ops in *. simpl. apply IH.
  destruct op as [now s note | now note]; simpl in *; done.
Qed.

Lemma rejected_kept_witness :
  Application.status
    (apply_ops [OpAddNote "2024-02-01T09:00:00.000Z" "Asked for feedback";
                OpUpdateStatus "2024-02-02T09:00:00.000Z" rejected None]
       mock_app4) = rejected.
Proof.
  apply (rejected_kept
           [OpAddNote "2024-02-01T09:00:00.000Z" "Asked for feedback";
            OpUpdateStatus "2024-02-02T09:00:00.000Z" rejected None]
           mock_app4).
  - reflexivity.
  - repeat constructor.
Defined.

(** C3, the claim as stated fails on the note: on the legal edge from
    [submitted] to [interview], with the empty string supplied as the note,
    the appended entry does not carry the supplied note but the default
    text. *)
Lemma empty_note_is_replaced :
  allowed_edge (Application.status mock_app2) interview = true
  ∧ TimelineEntry.note <$>
      last (Application.timeline
              (updateStatusOf "2024-02-01T09:00:00.000Z" interview (Some "")
                 mock_app2))
    = Some "Status changed to interview"
  ∧ TimelineEntry.note <$>
      last (Application.timeline
              (updateStatusOf "2024-02-01T09:00:00.000Z" interview (Some "")
                 mock_app2))
    ≠ Some "".
Proof. by repeat split. Qed.

(** C3, amended: on a legal edge the status update sets the status of the
    targeted application to the new status and appends exactly one entry at
    the end of the timeline, every prior entry kept in order.  The entry has
    the new status and the current timestamp; it carries the supplied note
    when one is supplied and is not empty, and the text "Status changed to"
    followed by the new status when the note is omitted or empty. *)
Theorem legal_transition_appends clock appId status note prev i app :
  prev !! i = Some app →
  Application.app_id app = appId →
  allowed_edge (Application.status app) status = true →
  ∃ app' entry,
    handleUpdateStatus clock appId status note prev !! i = Some app'
    ∧ Application.status app' = status
    ∧ Application.timeline app' = Application.timeline app ++ [entry]
    ∧ TimelineEntry.status entry = status
    ∧ TimelineEntry.date entry = clock i
    ∧ (∀ n, note = Some n → n ≠ "" → TimelineEntry.note entry = n)
    ∧ (note = None ∨ note = Some "" →
       TimelineEntry.note entry = "Status changed to " +:+ status).
Proof.
  intros Hi Hid _.
  exists (updateStatusOf (clock i) status note app),
    (TimelineEntry.mk status (clock i) (note_or_default note status)).
  rewrite handleUpdateStatus_lookup, Hi. simpl.
  rewrite decide_True by done. repeat split.
  - intros n -> Hn. by apply note_or_default_supplied.
  - apply note_or_default_missing.
Qed.

Lemma legal_transition_appends_witness :
  ∃ app' entry,
    handleUpdateStatus (fixed_clock "2024-02-01T09:00:00.000Z") "app2"
      interview (Some "Phone screen booked") mockApplications !! 1%nat
    = Some app'
    ∧ Application.status app' = interview
    ∧ Application.timeline app' = Application.timeline mock_app2 ++ [entry]
    ∧ TimelineEntry.status entry = interview
    ∧ TimelineEntry.date entry = "2024-02-01T09:00:00.000Z"
    ∧ (∀ n, Some "Phone screen booked" = Some n → n ≠ "" →
       TimelineEntry.note entry = n)
    ∧ (Some "Phone screen booked" = None ∨ Some "Phone screen booked" = Some "" →
       TimelineEntry.note entry = "Status changed to " +:+ interview).
Proof.
  apply (legal_transition_appends (fixed_clock "2024-02-01T09:00:00.000Z")
           "app2" interview (Some "Phone screen booked") mockApplications
           1%nat mock_app2);
    reflexivity.
Defined.

(** C4: non-decreasing timestamps are an invariant of both lifecycle
    operations.  When the clock has not gone backwards, that is, when its
    reading is not before the timestamp of the last entry, the status update
    and the added note each append an entry stamped with that reading, and a
    timeline that was in order is in order afterwards. *)
Theorem timeline_stays_chronological now status note text app :
  chronological (Application.timeline app) →
  (∀ e, last (Application.timeline app) = Some e →
        date_le (TimelineEntry.date e) now) →
  (TimelineEntry.date <$>
     last (Application.timeline (updateStatusOf now status note app)) = Some now
   ∧ chronological (Application.timeline (updateStatusOf now status note app)))
  ∧ (TimelineEntry.date <$>
       last (Application.timeline (addNoteTo now text app)) = Some now
     ∧ chronological (Application.timeline (addNoteTo now text app))).
Proof.
  intros Hch Hclock. simpl. rewrite !last_snoc, !chronological_snoc.
  by repeat split.
Qed.

Lemma timeline_stays_chronological_witness :
  (TimelineEntry.date <$>
     last (Application.timeline
             (updateStatusOf "2024-02-01T09:00:00.000Z" interview None mock_app2))
   = Some "2024-02-01T09:00:00.000Z"
   ∧ chronological
       (Application.timeline
          (updateStatusOf "2024-02-01T09:00:00.000Z" interview None mock_app2)))
  ∧ (TimelineEntry.date <$>
       last (Application.timeline
               (addNoteTo "2024-02-01T09:00:00.000Z" "Sent a follow-up" mock_app2))
     = Some "2024-02-01T09:00:00.000Z"
     ∧ chronological
         (Application.timeline
            (addNoteTo "2024-02-01T09:00:00.000Z" "Sent a follow-up" mock_app2))).
Proof.
  apply (timeline_stays_chronological "2024-02-01T09:00:00.000Z" interview None
           "Sent a follow-up" mock_app2).
  - simpl. repeat split; exact I.
  - intros e [= <-]. exact I.
Defined.

(** C5: adding a note always succeeds and touches the timeline only.  For
    every list that holds the application and every note, the application
    comes out with exactly one more timeline entry, at the end, which carries
    the status the application has (no new status) and the given note; its
    status and every field other than the timeline are unchanged. *)
Theorem add_note_appends clock note before app after :
  ∃ app',
    handleAddNote clock (Application.app_id app) note (before ++ app :: after)
      !! length before = Some app'
    ∧ Application.timeline app' =
        Application.timeline app ++
        [TimelineEntry.mk (Application.status app) (clock (length before)) note]
    ∧ Application.status app' = Application.status app
    ∧ same_frame app app'.
Proof.
  exists (addNoteTo (clock (length before)) note app).
  rewrite handleAddNote_lookup, list_lookup_middle by done. simpl.
  rewrite decide_True by done. repeat split.
Qed.

(** C8: both lifecycle operations leave the rest of the list alone.  The
    list keeps its length and the order of its identifiers, and every
    application whose identifier is not the targeted one is, at its position,
    exactly the application it was. *)
Theorem untargeted_unchanged clock appId status note text prev :
  (length (handleUpdateStatus clock appId status note prev) = length prev
   ∧ Application.app_id <$> handleUpdateStatus clock appId status note prev
     = Application.app_id <$> prev
   ∧ ∀ i app, prev !! i = Some app → Application.app_id app ≠ appId →
       handleUpdateStatus clock appId status note prev !! i = Some app)
  ∧ (length (handleAddNote clock appId text prev) = length prev
     ∧ Application.app_id <$> handleAddNote clock appId text prev
       = Application.app_id <$> prev
     ∧ ∀ i app, prev !! i = Some app → Application.app_id app ≠ appId →
         handleAddNote clock appId text prev !! i = Some app).
Proof.
  split; (split; [apply length_imap | split]).
  - apply list_eq. intros i.
    rewrite !list_lookup_fmap, handleUpdateStatus_lookup.
    destruct (prev !! i) as [app|]; [simpl | done]. by case_decide.
  - intros i app Hi Hne. rewrite handleUpdateStatus_lookup, Hi. simpl.
    by rewrite decide_False.
  - apply list_eq. intros i.
    rewrite !list_lookup_fmap, handleAddNote_lookup.
    destruct (prev !! i) as [app|]; [simpl | done]. by case_decide.
  - intros i app Hi Hne. rewrite handleAddNote_lookup, Hi. simpl.
    by rewrite decide_False.
Qed.

Lemma untargeted_unchanged_witness :
  handleUpdateStatus (fixed_clock "2024-02-01T09:00:00.000Z") "app2" offer None
    mockApplications !! 0%nat = Some mock_app1
  ∧ handleAddNote (fixed_clock "2024-02-01T09:00:00.000Z") "app2" "Called back"
      mockApplications !! 0%nat = Some mock_app1.
Proof.
  pose proof (untargeted_unchanged (fixed_clock "2024-02-01T09:00:00.000Z")
                "app2" offer None "Called back" mockApplications)
    as [(_ & _ & Hu) (_ & _ & Hn)].
  split; [apply Hu | apply Hn]; (reflexivity || discriminate).
Defined.

(** ** The status filter *)

Lemma filter_sublist {A} (f : A → bool) (l : list A) : sublist (List.filter f l) l.
Proof.
  induction l as [|a l IH]; simpl; [constructor |].
  destruct (f a); by constructor.
Qed.

Lemma filter_Forall {A} (f : A → bool) (l : list A) :
  Forall (λ a, f a = true) (List.filter f l).
Proof.
  induction l as [|a l IH]; simpl; [constructor |].
  destruct (f a) eqn:Hfa; [by constructor | done].
Qed.

Lemma filter_split {A} (f : A → bool) (l : list A) :
  l ≡ₚ List.filter f l ++ List.filter (λ a, negb (f a)) l.
Proof.
  induction l as [|a l IH]; simpl; [done |].
  destruct (f a); simpl.
  - by constructor.
  - rewrite <- Permutation_middle. by constructor.
Qed.

Lemma truthy_spec s : truthy s = true ↔ s ≠ "".
Proof. by destruct s. Qed.

(** C9: the status filter is exact.  With the empty filter every
    application is shown.  With any other filter the applications shown are a
    sub-sequence of the list, in its order, all of them have the status of
    the filter, and the applications left out are exactly the others: the
    list is the shown ones together with hidden ones that all have another
    status. *)
Theorem status_filter_exact statusFilter applications :
  filteredApplications "" applications = applications
  ∧ (statusFilter ≠ "" →
     sublist (filteredApplications statusFilter applications) applications
     ∧ Forall (λ app, Application.status app = statusFilter)
         (filteredApplications statusFilter applications)
     ∧ ∃ hidden,
         applications ≡ₚ filteredApplications statusFilter applications ++ hidden
         ∧ Forall (λ app, Application.status app ≠ statusFilter) hidden).
Proof.
  split; [done |]. intros Hne. unfold filteredApplications.
  apply truthy_spec in Hne as ->. split; [apply filter_sublist | split].
  - eapply Forall_impl; [apply filter_Forall |].
    intros app Happ. by apply bool_decide_eq_true in Happ.
  - eexists. split; [apply filter_split |].
    eapply Forall_impl; [apply filter_Forall |].
    intros app Happ. simpl in Happ. apply negb_true_iff in Happ.
    by apply bool_decide_eq_false in Happ.
Qed.

Lemma status_filter_exact_witness :
  filteredApplications interview mockApplications = [mock_app1]
  ∧ sublist (filteredApplications interview mockApplications) mockApplications.
Proof.
  split; [reflexivity |].
  apply (status_filter_exact interview mockApplications). discriminate.
Defined.

(** ** The salary of the job card *)

Lemma truthy_num_false x : truthy_num x = false ↔ falsy_bound x.
Proof.
  unfold falsy_bound. destruct x as [n|]; simpl.
  - rewrite negb_false_iff, Z.eqb_eq. split; [intros ->; by right |].
    by intros [? | [= ->]].
  - split; [by left | done].
Qed.

Lemma truthy_num_true x : truthy_num x = true ↔ ¬ falsy_bound x.
Proof.
  rewrite <- truthy_num_false. destruct (truthy_num x); split; congruence.
Qed.

(** C10: a bound of 0 counts as an absent bound.  [formatSalary] answers
    "Not specified" exactly when each of [min] and [max] is [null] or 0; so
    does a range with [min] 0 and no [max]; and a range with [min] 0 and a
    positive [max] is rendered one-sided, as "Up to $Xk". *)
Theorem formatSalary_zero_as_absent :
  (∀ range,
     formatSalary range = "Not specified"
     ↔ falsy_bound (SalaryRange.min range) ∧ falsy_bound (SalaryRange.max range))
  ∧ formatSalary (SalaryRange.mk (Some 0) None) = "Not specified"
  ∧ ∀ hi, 0 < hi →
      formatSalary (SalaryRange.mk (Some 0) (Some hi))
      = "Up to $" +:+ toFixed0_thousands hi +:+ "k".
Proof.
  split; [| split; [done |]].
  - intros [lo hi]. unfold formatSalary. simpl.
    rewrite <- !truthy_num_false.
    destruct (truthy_num lo), (truthy_num hi); simpl; split;
      try done; by intros [? ?].
  - intros hi Hhi. unfold formatSalary. simpl.
    destruct (Z.eqb_spec hi 0) as [-> | _]; [lia | done].
Qed.

Lemma formatSalary_zero_as_absent_witness :
  formatSalary (SalaryRange.mk (Some 0) (Some 150000)) = "Up to $150k".
Proof.
  destruct formatSalary_zero_as_absent as (_ & _ & H).
  rewrite (H 150000) by lia. reflexivity.
Defined.

(** ** The orchestrator *)

Section orchestrator.
Import Orchestrator.
Variables (cfg : Config) (reg : gmap string Capability) (user : string).

Lemma step_continue st st' :
  step cfg reg user st = inl st' →
  hops st' = S (hops st)
  ∧ (hops st' ≤ ceiling cfg)%nat
  ∧ length (run_log st') = S (length (run_log st)).
Proof.
  unfold step. intros H.
  destruct (pending st) as [name|]; [| done].
  destruct (cancelled cfg (hops st)); [done |].
  case_bool_decide as Hc; [done |].
  destruct (reg !! name) as [cap|]; [| done].
  destruct (invoke _ _ _ _) as [env|]; [| done].
  destruct (merge _ _ _ _) as [store'|]; [| done].
  injection H as <-. simpl. rewrite length_app. simpl. lia.
Qed.

Lemma step_stop st r :
  step cfg reg user st = inr r → log r = run_log st.
Proof.
  unfold step. intros H.
  destruct (pending st) as [name|]; [| by injection H as <-].
  destruct (cancelled cfg (hops st)); [by injection H as <- |].
  case_bool_decide; [by injection H as <- |].
  destruct (reg !! name) as [cap|]; [| by injection H as <-].
  destruct (invoke _ _ _ _) as [env|]; [| by injection H as <-].
  destruct (merge _ _ _ _) as [store'|]; [done | by injection H as <-].
Qed.

Lemma find_none_intro {A} (f : A → bool) (l : list A) :
  (∀ x, x ∈ l → f x = false) → List.find f l = None.
Proof.
  induction l as [|a l IH]; [done |]. intros H. simpl.
  rewrite (H a) by left. apply IH. intros x Hx. apply H. by right.
Qed.

Lemma merge_valid writes s :
  (∀ k v, writes !! k = Some v → valid_key cfg k = true) →
  ∃ s', merge cfg user writes s = inl s'.
Proof.
  intros Hvalid. unfold merge. rewrite find_none_intro; [by eexists |].
  intros [k v] Hkv%elem_of_map_to_list. simpl.
  by rewrite (Hvalid k v Hkv).
Qed.

Lemma step_endless st name :
  endless cfg reg →
  pending st = Some name → is_Some (reg !! name) →
  ((hops st < ceiling cfg)%nat →
   ∃ st' name', step cfg reg user st = inl st'
                ∧ pending st' = Some name' ∧ is_Some (reg !! name'))
  ∧ ((ceiling cfg ≤ hops st)%nat →
     step cfg reg user st = inr (finish (Failed PipelineOverrun) st)).
Proof.
  intros [Hnc Hreg] Hp [cap Hcap]. unfold step. rewrite Hp, Hnc. split.
  - intros Hlt. rewrite bool_decide_eq_false_2 by lia. rewrite Hcap.
    edestruct Hreg as (env & Henv & (next & Hnext & Hsome) & Hkeys); [done |].
    assert (invoke cap
              {| ctx_user := user; store_snapshot := snapshot user (store st);
                 ctx_pass_data := pending_data st |} 0 (max_retries cfg)
            = inl env) as ->.
    { destruct (max_retries cfg); simpl; by rewrite Henv. }
    destruct (merge_valid (save_to_memory env) (store st) Hkeys) as [s' ->].
    by eexists _, next.
  - intros Hge. by rewrite bool_decide_eq_true_2 by lia.
Qed.

Lemma run_loop_spec fuel st :
  (hops st ≤ ceiling cfg)%nat →
  length (run_log st) = hops st →
  (ceiling cfg < fuel + hops st)%nat →
  ∃ r, run_loop fuel cfg reg user st = Some r
       ∧ (length (log r) ≤ ceiling cfg)%nat
       ∧ (endless cfg reg →
          (∃ name, pending st = Some name ∧ is_Some (reg !! name)) →
          outcome r = Failed PipelineOverrun
          ∧ length (log r) = ceiling cfg).
Proof.
  revert st. induction fuel as [|fuel IH]; intros st Hle Hlog Hfuel; [lia |].
  simpl. destruct (step cfg reg user st) as [st'|r] eqn:Hstep.
  - destruct (step_continue _ _ Hstep) as (Hh & Hc & Hl).
    destruct (IH st') as (r & Hr & Hlen & Hend); [done | lia | lia |].
    exists r. split; [done |]. split; [done |].
    intros He (name & Hp & Hn). apply Hend; [done |].
    destruct (step_endless st name He Hp Hn) as [Hgo Hstop].
    destruct (decide (hops st < ceiling cfg)%nat) as [Hlt|Hge].
    + destruct (Hgo Hlt) as (st'' & name' & Hst'' & ? & ?).
      rewrite Hstep in Hst''. injection Hst'' as <-. by exists name'.
    + rewrite Hstop in Hstep by lia. done.
  - exists r. split; [done |]. rewrite (step_stop _ _ Hstep).
    split; [lia |]. intros He (name & Hp & Hn).
    destruct (step_endless st name He Hp Hn) as [Hgo Hstop].
    destruct (decide (hops st < ceiling cfg)%nat) as [Hlt|Hge].
    + destruct (Hgo Hlt) as (st'' & name' & Hst'' & ? & ?). congruence.
    + rewrite Hstop in Hstep by lia. injection Hstep as <-. simpl.
      split; [done | lia].
Qed.

End orchestrator.

(** C7: the orchestrator run terminates on every input.  For every
    configuration, registry, store and initial envelope the run returns a
    result, after at most as many hops as the ceiling allows; and when the
    chain of next agents never ends, as in a cycle of capabilities that each
    name a registered successor, the result is the failure
    [PipelineOverrun], reached when the hop counter has reached the
    ceiling. *)
Theorem run_terminates cfg reg user s initial_envelope :
  ∃ r, Orchestrator.run cfg reg user s initial_envelope = Some r
       ∧ (length (Orchestrator.log r) ≤ Orchestrator.ceiling cfg)%nat
       ∧ (Orchestrator.endless cfg reg →
          (∃ name, Orchestrator.next_agent initial_envelope = Some name
                   ∧ is_Some (reg !! name)) →
          Orchestrator.outcome r = Orchestrator.Failed Orchestrator.PipelineOverrun
          ∧ length (Orchestrator.log r) = Orchestrator.ceiling cfg).
Proof.
  unfold Orchestrator.run.
  apply run_loop_spec; simpl; [lia | done | lia].
Qed.

Lemma ping_pong_endless : Orchestrator.endless default_config ping_pong.
Proof.
  split; [done |]. intros name cap ctx Hcap. unfold ping_pong in Hcap.
  apply lookup_insert_Some in Hcap as [[<- <-] | [_ Hcap]].
  - eexists. split; [done |]. split.
    + exists "TRACKER_AGENT". split; [done |]. by eexists.
    + done.
  - apply lookup_singleton_Some in Hcap as [<- <-].
    eexists. split; [done |]. split.
    + exists "MATCHER_AGENT". split; [done |]. by eexists.
    + done.
Defined.

Lemma run_terminates_witness :
  ∃ r, Orchestrator.run default_config ping_pong "user1" ∅
         (start_at "MATCHER_AGENT") = Some r
       ∧ Orchestrator.outcome r = Orchestrator.Failed Orchestrator.PipelineOverrun
       ∧ length (Orchestrator.log r) = 32%nat.
Proof.
  destruct (run_terminates default_config ping_pong "user1" ∅
              (start_at "MATCHER_AGENT")) as (r & Hr & _ & Hend).
  exists r. split; [exact Hr |]. apply Hend.
  - exact ping_pong_endless.
  - exists "MATCHER_AGENT". split; [reflexivity | by eexists].
Defined.

(** ** The matching engine *)

Section matching.
Import Matching.






Lemma same_profile_refl p : same_profile p p.
Proof. by repeat split. Qed.

End matching.

(** The scenarios of section 8 on the model: the remote Python job posted
    two days ago scores at least 85 for the hybrid profile, with all four
    highlights, and a blacklisted company scores 0 whatever the rest. *)
Example scenario_scores :
  85 ≤ Matching.score_value (Matching.score scenario_profile scenario_job)
  ∧ length (Matching.highlights (Matching.score scenario_profile scenario_job))
    = 4%nat
  ∧ Matching.score_value
      (Matching.score scenario_profile
         (Matching.mkJob "job2" "Backend Engineer" "evilcorp" "Berlin"
            Matching.remote (Some 130000) (Some 150000)
            "We build data pipelines in Python." [] (2 * Matching.day) "new"))
    = 0.
Proof. by vm_compute. Qed.



(** ** More on the applications page *)

(** An identifier that no application of the list has: both handlers return
    the list as it was, and raise nothing. *)
Theorem unknown_id_changes_nothing clock appId status note text prev :
  (∀ app, app ∈ prev → Application.app_id app ≠ appId) →
  handleUpdateStatus clock appId status note prev = prev
  ∧ handleAddNote clock appId text prev = prev.
Proof.
  intros Hnone. split; apply list_eq; intros i.
  - rewrite handleUpdateStatus_lookup.
    destruct (prev !! i) as [app|] eqn:Hi; [simpl | done].
    rewrite decide_False; [done |]. apply Hnone. by eapply list_elem_of_lookup_2.
  - rewrite handleAddNote_lookup.
    destruct (prev !! i) as [app|] eqn:Hi; [simpl | done].
    rewrite decide_False; [done |]. apply Hnone. by eapply list_elem_of_lookup_2.
Qed.

Lemma unknown_id_changes_nothing_witness :
  handleUpdateStatus (fixed_clock "2024-02-01T09:00:00.000Z") "app9" offer None
    mockApplications = mockApplications
  ∧ handleAddNote (fixed_clock "2024-02-01T09:00:00.000Z") "app9" "Lost"
      mockApplications = mockApplications.
Proof.
  apply (unknown_id_changes_nothing (fixed_clock "2024-02-01T09:00:00.000Z")
           "app9" offer None "Lost" mockApplications).
  intros app Happ. unfold mockApplications in Happ.
  repeat (apply elem_of_cons in Happ as [-> | Happ]; [discriminate |]).
  by apply elem_of_nil in Happ.
Defined.

Lemma statusCounts_fold (acc : gmap string Z) apps s :
  default 0
    (foldl (λ acc app,
              <[ Application.status app :=
                   default 0 (acc !! Application.status app) + 1 ]> acc)
       acc apps !! s)
  = default 0 (acc !! s)
    + Z.of_nat (length (List.filter
                          (λ app, bool_decide (Application.status app = s)) apps)).
Proof.
  revert acc. induction apps as [|a apps IH]; intros acc; simpl; [lia |].
  rewrite IH. case_bool_decide as Hs.
  - rewrite Hs, lookup_insert_eq. simpl length. simpl default at 1. lia.
  - by rewrite lookup_insert_ne.
Qed.

Lemma statusCounts_fold_None (acc : gmap string Z) apps s :
  foldl (λ acc app,
           <[ Application.status app :=
                default 0 (acc !! Application.status app) + 1 ]> acc)
    acc apps !! s = None
  ↔ acc !! s = None ∧ Forall (λ app, Application.status app ≠ s) apps.
Proof.
  revert acc. induction apps as [|a apps IH]; intros acc; simpl.
  - split; [by intros ? | by intros [? _]].
  - rewrite IH, Forall_cons. destruct (decide (Application.status a = s)) as [<- | Hne].
    + rewrite lookup_insert_eq. split; [by intros [? _] | by intros [_ [? _]]].
    + rewrite lookup_insert_ne by done. tauto.
Qed.

(** The number on a summary card is the number of applications with the
    status of the card, and, the status not being the empty string, the
    length of the list shown when that status is the filter. *)
Theorem summary_count_is_shown applications value :
  summaryCount applications value
  = Z.of_nat (length (List.filter
                        (λ app, bool_decide (Application.status app = value))
                        applications))
  ∧ (value ≠ "" →
     summaryCount applications value
     = Z.of_nat (length (filteredApplications value applications))).
Proof.
  assert (summaryCount applications value
          = Z.of_nat (length (List.filter
                        (λ app, bool_decide (Application.status app = value))
                        applications))) as Hcount.
  { unfold summaryCount, statusCounts. rewrite statusCounts_fold.
    by rewrite lookup_empty. }
  split; [done |]. intros Hne. rewrite Hcount. unfold filteredApplications.
  by apply truthy_spec in Hne as ->.
Qed.

Lemma summary_count_is_shown_witness :
  summaryCount mockApplications interview
  = Z.of_nat (length (filteredApplications interview mockApplications)).
Proof.
  apply (summary_count_is_shown mockApplications interview). discriminate.
Defined.

(** [statusCounts] has a key for exactly the statuses that occur in the
    list, and the count it stores is never 0: a status without application
    is a missing key, which the page displays as 0. *)
Theorem status_counts_keys applications value :
  (statusCounts applications !! value = None
   ↔ Forall (λ app, Application.status app ≠ value) applications)
  ∧ ∀ n, statusCounts applications !! value = Some n → 0 < n.
Proof.
  unfold statusCounts. split.
  - rewrite statusCounts_fold_None, lookup_empty. tauto.
  - intros n Hn.
    pose proof (statusCounts_fold ∅ applications value) as Hc.
    rewrite Hn, lookup_empty in Hc. simpl in Hc.
    destruct (List.filter _ applications) as [|a l] eqn:Hf; [| simpl in Hc; lia].
    exfalso. assert (Some n = None) as [=]. rewrite <- Hn.
    apply statusCounts_fold_None. split; [apply lookup_empty |].
    apply Forall_forall. intros app Happ Hs.
    assert (In app []) as []. rewrite <- Hf. apply filter_In.
    split; [by apply list_elem_of_In | by apply bool_decide_eq_true].
Qed.

Lemma status_counts_keys_witness :
  statusCounts mockApplications !! ready = None
  ∧ 0 < default 0 (statusCounts mockApplications !! offer).
Proof.
  split.
  - apply (status_counts_keys mockApplications ready).
    unfold mockApplications. repeat constructor; discriminate.
  - destruct (statusCounts mockApplications !! offer) as [n|] eqn:Hn.
    + exact (proj2 (status_counts_keys mockApplications offer) n Hn).
    + apply (status_counts_keys mockApplications offer) in Hn.
      apply Forall_cons in Hn as [_ Hn]. apply Forall_cons in Hn as [_ Hn].
      apply Forall_cons in Hn as [Hn _]. by destruct Hn.
Defined.

(** ** Sequences of operations on one application *)

Lemma apply_op_timeline app op :
  ∃ entry,
    Application.timeline (apply_op app op) = Application.timeline app ++ [entry]
    ∧ TimelineEntry.date entry = op_time op
    ∧ TimelineEntry.status entry = Application.status (apply_op app op).
Proof. destruct op; by eexists. Qed.

Lemma apply_op_frame app op : same_frame app (apply_op app op).
Proof. destruct op; [apply updateStatusOf_frame | apply addNoteTo_frame]. Qed.

(** The timeline is append-only under any sequence of status updates and
    notes: the entries it had stay a prefix, one entry is added for each
    operation, stamped with the clock reading of the operation, and no field
    other than the status and the timeline ever changes; the match score in
    particular is the one the application started with. *)
Theorem operations_only_append ops app :
  ∃ entries,
    Application.timeline (apply_ops ops app) = Application.timeline app ++ entries
    ∧ TimelineEntry.date <$> entries = op_time <$> ops
    ∧ same_frame app (apply_ops ops app).
Proof.
  revert app. induction ops as [|op ops IH]; intros app.
  - exists []. by rewrite app_nil_r.
  - destruct (apply_op_timeline app op) as (entry & Htl & Hdate & _).
    destruct (IH (apply_op app op)) as (entries & Htls & Hdates & Hframe).
    exists (entry :: entries). split; [| split].
    + unfold apply_ops in *. simpl. by rewrite Htls, Htl, <- app_assoc.
    + by rewrite !fmap_cons, Hdate, Hdates.
    + eapply same_frame_trans; [apply apply_op_frame | done].
Qed.

(** After at least one operation the last entry of the timeline shows the
    status the application has. *)
Theorem last_entry_shows_status ops app :
  ops ≠ [] →
  TimelineEntry.status <$> last (Application.timeline (apply_ops ops app))
  = Some (Application.status (apply_ops ops app)).
Proof.
  destruct ops as [|op ops _] using rev_ind; [done |]. intros _.
  rewrite apply_ops_snoc.
  destruct (apply_op_timeline (apply_ops ops app) op) as (entry & -> & _ & <-).
  by rewrite last_snoc.
Qed.

Lemma last_entry_shows_status_witness :
  TimelineEntry.status <$>
    last (Application.timeline
            (apply_ops [OpUpdateStatus "2024-02-01T09:00:00.000Z" offer None;
                        OpAddNote "2024-02-02T09:00:00.000Z" "Negotiating"]
               mock_app1))
  = Some offer.
Proof.
  rewrite (last_entry_shows_status
             [OpUpdateStatus "2024-02-01T09:00:00.000Z" offer None;
              OpAddNote "2024-02-02T09:00:00.000Z" "Negotiating"] mock_app1)
    by discriminate.
  reflexivity.
Defined.

Lemma date_le_empty d : date_le "" d.
Proof. unfold date_le, String.le. by destruct d. Qed.

(** A timeline in order stays in order under a whole sequence of operations
    whose clock readings start at or after its last timestamp and never go
    backwards. *)
Theorem operations_keep_order ops app :
  chronological (Application.timeline app) →
  ops_in_order (last_time (Application.timeline app)) ops →
  chronological (Application.timeline (apply_ops ops app)).
Proof.
  revert app. induction ops as [|op ops IH]; intros app Hch Hops; [done |].
  destruct Hops as [Hfirst Hrest]. unfold apply_ops in *. simpl. apply IH.
  - destruct (apply_op_timeline app op) as (entry & -> & Hdate & _).
    apply chronological_snoc. split; [done |].
    intros e0 He0. unfold last_time in Hfirst. rewrite He0 in Hfirst.
    by rewrite Hdate.
  - destruct (apply_op_timeline app op) as (entry & -> & Hdate & _).
    unfold last_time. by rewrite last_snoc; simpl; rewrite Hdate.
Qed.

Lemma operations_keep_order_witness :
  chronological
    (Application.timeline
       (apply_ops [OpAddNote "2024-01-20T09:00:00.000Z" "Sent a follow-up";
                   OpUpdateStatus "2024-01-25T09:00:00.000Z" interview None;
                   OpAddNote "2024-01-25T09:00:00.000Z" "On site"]
          mock_app2)).
Proof.
  apply (operations_keep_order
           [OpAddNote "2024-01-20T09:00:00.000Z" "Sent a follow-up";
            OpUpdateStatus "2024-01-25T09:00:00.000Z" interview None;
            OpAddNote "2024-01-25T09:00:00.000Z" "On site"] mock_app2).
  - simpl. repeat split; exact I.
  - simpl. repeat split; exact I.
Defined.

(** ** Operations on the list, composed *)



(** Choosing in the drop-down of a card the status the application already
    has is not a no-op: the status stays, and the timeline gets one more
    entry, with that status and the default text, the card passing no note. *)
Theorem reselecting_status_appends clock before application after :
  ∃ app',
    handleStatusChange clock application (Application.status application)
      (before ++ application :: after) !! length before = Some app'
    ∧ Application.status app' = Application.status application
    ∧ Application.timeline app' =
        Application.timeline application ++
        [TimelineEntry.mk (Application.status application)
           (clock (length before))
           ("Status changed to " +:+ Application.status application)]
    ∧ app' ≠ application.
Proof.
  exists (updateStatusOf (clock (length before))
            (Application.status application) None application).
  unfold handleStatusChange.
  rewrite handleUpdateStatus_lookup, list_lookup_middle by done. simpl.
  rewrite decide_True by done. repeat split.
  intros H. apply (f_equal (λ a, length (Application.timeline a))) in H.
  simpl in H. rewrite length_app in H. simpl in H. lia.
Qed.

Lemma statusCounts_by_status apps1 apps2 :
  Application.status <$> apps1 = Application.status <$> apps2 →
  statusCounts apps1 = statusCounts apps2.
Proof.
  unfold statusCounts. generalize (∅ : gmap string Z). revert apps2.
  induction apps1 as [|a apps1 IH]; intros [|b apps2] acc H; try done.
  simpl in H. injection H as Hab Hrest. simpl. rewrite Hab. by apply IH.
Qed.

(** A note moves no application: after [handleAddNote] the counts of the
    summary cards are what they were, and every filter shows the
    applications with the same identifiers, in the same order. *)
Theorem note_keeps_counts_and_filters clock appId text statusFilter prev :
  statusCounts (handleAddNote clock appId text prev) = statusCounts prev
  ∧ Application.app_id <$>
      filteredApplications statusFilter (handleAddNote clock appId text prev)
    = Application.app_id <$> filteredApplications statusFilter prev.
Proof.
  split.
  - apply statusCounts_by_status. apply list_eq. intros i.
    rewrite !list_lookup_fmap, handleAddNote_lookup.
    destruct (prev !! i) as [app|]; [simpl | done]. by case_decide.
  - unfold filteredApplications, handleAddNote.
    destruct (truthy statusFilter).
    + generalize clock. induction prev as [|a prev IH]; intros c; [done |].
      simpl. specialize (IH (c ∘ S)).
      destruct (decide (Application.app_id a = appId)); simpl;
        case_bool_decide; simpl; first [exact IH | f_equal; exact IH].
    + apply list_eq. intros i.
      rewrite !list_lookup_fmap, list_lookup_imap.
      destruct (prev !! i) as [app|]; [simpl | done]. by case_decide.
Qed.

(** ** More on the job card *)

(** Where the card renders the salary tag, [formatSalary] never answers
    "Not specified": the guard of the tag already requires a truthy bound, so
    the text starts with the dollar sign or with "Up to". *)
Theorem shown_salary_is_specified range :
  showsSalary (Some range) = true →
  formatSalary range ≠ "Not specified"
  ∧ ∃ rest, formatSalary range = "$" +:+ rest
            ∨ formatSalary range = "Up to $" +:+ rest.
Proof.
  destruct range as [lo hi]. unfold showsSalary, formatSalary. simpl.
  destruct (truthy_num lo), (truthy_num hi); simpl; try done; intros _;
    (split; [done | eexists; by (left + right)]).
Qed.

Lemma shown_salary_is_specified_witness :
  formatSalary (SalaryRange.mk None (Some 90000)) ≠ "Not specified".
Proof.
  apply (shown_salary_is_specified (SalaryRange.mk None (Some 90000))).
  reflexivity.
Defined.

Lemma toFixed0_thousands_nearest x k :
  0 < x → 1000 * k - 500 ≤ x < 1000 * k + 500 →
  toFixed0_thousands x = pretty (Z.to_N k).
Proof.
  intros Hx Hk. unfold toFixed0_thousands.
  destruct (Z.ltb_spec x 0) as [? | _]; [lia |].
  rewrite Z.abs_eq by lia.
  assert ((x + 500) `div` 1000 = k) as ->; [| done].
  symmetry. apply (Z.div_unique _ _ _ (x + 500 - 1000 * k)); lia.
Qed.

(** A two-sided range is rendered in thousands, each bound rounded to the
    nearest thousand and a half rounded up. *)
Theorem salary_rounds_to_thousands lo hi a b :
  0 < lo → 0 < hi →
  1000 * a - 500 ≤ lo < 1000 * a + 500 →
  1000 * b - 500 ≤ hi < 1000 * b + 500 →
  formatSalary (SalaryRange.mk (Some lo) (Some hi))
  = "$" +:+ pretty (Z.to_N a) +:+ "k - $" +:+ pretty (Z.to_N b) +:+ "k".
Proof.
  intros Hlo Hhi Ha Hb. unfold formatSalary. simpl.
  destruct (Z.eqb_spec lo 0); [lia |]. destruct (Z.eqb_spec hi 0); [lia |].
  simpl. by rewrite (toFixed0_thousands_nearest lo a),
    (toFixed0_thousands_nearest hi b).
Qed.

Lemma salary_rounds_to_thousands_witness :
  formatSalary (SalaryRange.mk (Some 119500) (Some 160499)) = "$120k - $160k".
Proof.
  rewrite (salary_rounds_to_thousands 119500 160499 120 160) by lia.
  reflexivity.
Defined.

(** A lower bound below 500, an hourly rate for one, is rendered as zero
    thousands: "$0k+". *)
Theorem small_salary_shows_zero lo :
  0 < lo < 500 →
  formatSalary (SalaryRange.mk (Some lo) None) = "$0k+".
Proof.
  intros Hlo. unfold formatSalary. simpl.
  destruct (Z.eqb_spec lo 0); [lia |]. simpl.
  by rewrite (toFixed0_thousands_nearest lo 0) by lia.
Qed.

Lemma small_salary_shows_zero_witness :
  formatSalary (SalaryRange.mk (Some 45) None) = "$0k+".
Proof. apply (small_salary_shows_zero 45). lia. Defined.

(** The four colour classes of the match score partition the scores at 85,
    70 and 50, each bound belonging to the better class. *)
Theorem score_color_bands score :
  (getScoreColor score = "score-excellent" ↔ 85 ≤ score)
  ∧ (getScoreColor score = "score-good" ↔ 70 ≤ score < 85)
  ∧ (getScoreColor score = "score-fair" ↔ 50 ≤ score < 70)
  ∧ (getScoreColor score = "score-low" ↔ score < 50).
Proof.
  unfold getScoreColor.
  destruct (Z.leb_spec 85 score); [| destruct (Z.leb_spec 70 score);
    [| destruct (Z.leb_spec 50 score)]];
    repeat split; intros; try discriminate; lia.
Qed.

(** ** The jobs page *)

Lemma keepsJob_true toLowerCase searchQuery filter minScore job :
  keepsJob toLowerCase searchQuery filter minScore job = true →
  minScore ≤ JobMatch.match_score job
  ∧ (filter ≠ "all" → Job.remote_status (JobMatch.job job) = filter).
Proof.
  unfold keepsJob. destruct (truthy searchQuery && _); [done |].
  case_bool_decide as Hall; simpl.
  - destruct (Z.ltb_spec (JobMatch.match_score job) minScore); [done |].
    by intros _.
  - case_bool_decide as Hrem; simpl; [| done].
    destruct (Z.ltb_spec (JobMatch.match_score job) minScore); [done |].
    by intros _.
Qed.

(** The jobs listed are jobs of the list, in its order; each of them has a
    score of at least the minimum, and the remote status of the filter
    unless the filter is 'all'. *)
Theorem filtered_jobs_sound toLowerCase searchQuery filter minScore jobs :
  sublist (filteredJobs toLowerCase searchQuery filter minScore jobs) jobs
  ∧ Forall (λ job,
              minScore ≤ JobMatch.match_score job
              ∧ (filter ≠ "all" →
                 Job.remote_status (JobMatch.job job) = filter))
      (filteredJobs toLowerCase searchQuery filter minScore jobs).
Proof.
  split; [apply filter_sublist |].
  eapply Forall_impl; [apply filter_Forall |]. intros job.
  apply keepsJob_true.
Qed.

Lemma filtered_jobs_sound_witness :
  Forall (λ job,
            70 ≤ JobMatch.match_score job
            ∧ ("remote" ≠ "all" →
               Job.remote_status (JobMatch.job job) = "remote"))
    (filteredJobs Matching.lower "stack" "remote" 70 sample_matches)
  ∧ length (filteredJobs Matching.lower "stack" "remote" 70 sample_matches)
    = 1%nat.
Proof.
  split; [| reflexivity].
  apply (filtered_jobs_sound Matching.lower "stack" "remote" 70 sample_matches).
Defined.

Lemma keepsJob_raise toLowerCase searchQuery filter m1 m2 job :
  m1 ≤ m2 →
  keepsJob toLowerCase searchQuery filter m2 job
  = keepsJob toLowerCase searchQuery filter m1 job
    && negb (JobMatch.match_score job <? m2).
Proof.
  intros Hm. unfold keepsJob. destruct (truthy searchQuery && _); [done |].
  destruct (negb (bool_decide (filter = "all")) && _); [done |].
  destruct (Z.ltb_spec (JobMatch.match_score job) m1),
    (Z.ltb_spec (JobMatch.match_score job) m2); simpl; done || lia.
Qed.

Lemma filter_filter_andb {A} (f g : A → bool) (l : list A) :
  List.filter (λ a, f a && g a) l = List.filter g (List.filter f l).
Proof.
  induction l as [|a l IH]; [done |]. simpl.
  destruct (f a); simpl; [destruct (g a) |]; by rewrite IH.
Qed.

(** Raising the minimum score only removes jobs: the list for the higher
    minimum is the list for the lower one without the jobs that score below
    the higher minimum. *)
Theorem min_score_narrows toLowerCase searchQuery filter m1 m2 jobs :
  m1 ≤ m2 →
  filteredJobs toLowerCase searchQuery filter m2 jobs
  = List.filter (λ job, negb (JobMatch.match_score job <? m2))
      (filteredJobs toLowerCase searchQuery filter m1 jobs).
Proof.
  intros Hm. unfold filteredJobs. rewrite <- filter_filter_andb.
  apply filter_ext. intros job. by apply keepsJob_raise.
Qed.

Lemma min_score_narrows_witness :
  filteredJobs Matching.lower "" "all" 90 sample_matches
  = List.filter (λ job, negb (JobMatch.match_score job <? 90))
      (filteredJobs Matching.lower "" "all" 70 sample_matches).
Proof.
  apply (min_score_narrows Matching.lower "" "all" 70 90 sample_matches). lia.
Defined.

(** ** The resume upload *)

(** A drop calls [onUpload], with the first of the dropped files, exactly
    when that file has one of the four accepted types and is at most
    5 * 1024 * 1024 bytes long; a file of exactly that size is uploaded. *)
Theorem upload_attempted_iff onUpload acceptedFiles file :
  ResumeUpload.uploaded (ResumeUpload.onDrop onUpload acceptedFiles) = Some file
  ↔ head acceptedFiles = Some file
    ∧ ResumeUpload.type file ∈ ResumeUpload.validTypes
    ∧ ResumeUpload.size file ≤ 5242880.
Proof.
  unfold ResumeUpload.onDrop. destruct acceptedFiles as [|f rest]; simpl.
  - split; [done | by intros [? _]].
  - case_bool_decide as Ht; simpl.
    + destruct (Z.ltb_spec (5 * 1024 * 1024) (ResumeUpload.size f)); simpl.
      * split; [done |]. intros ([= ->] & _ & ?). lia.
      * destruct (onUpload f); simpl; (split;
          [intros [= ->]; repeat split; [done | lia]
          | by intros ([= ->] & _ & _)]).
    + split; [done |]. by intros ([= ->] & ? & _).
Qed.

(** The type is checked before the size: the error is the message about the
    file type exactly when the first dropped file has none of the accepted
    types, however long it is, and no upload is attempted then. *)
Theorem wrong_type_reported_first onUpload acceptedFiles :
  ResumeUpload.error (ResumeUpload.onDrop onUpload acceptedFiles)
  = Some "Please upload a PDF, Word document, or text file"
  ↔ ∃ file, head acceptedFiles = Some file
            ∧ ResumeUpload.type file ∉ ResumeUpload.validTypes.
Proof.
  unfold ResumeUpload.onDrop. destruct acceptedFiles as [|f rest]; simpl.
  - split; [done | by intros (? & ? & _)].
  - case_bool_decide as Ht; simpl.
    + split; [| by intros (? & [= <-] & ?)].
      destruct (5 * 1024 * 1024 <? ResumeUpload.size f); [done |].
      by destruct (onUpload f).
    + split; [intros _; by exists f | done].
Qed.
